(** * StarGuide relay server: presence registry, broadcast and HTTP probes

    A shallow embedding of the Socket.IO relay and of the JSON endpoints
    of [server.js] (Express + Socket.IO), of the secrets loader and of
    the two pieces of the build and configuration scripts it works with,
    followed by the properties the design document states about the relay
    and by further properties read off the code.

    - the global [connectedUsers] (a JS [Map] from socket id to the
      descriptor sent with [userJoined]) is a [gmap string jsval];
    - the transport's table of open sockets (Socket.IO's namespace) is a
      [gset string]; the server code never calls [socket.join], so the
      only rooms are the ones Socket.IO creates per socket, named by the
      socket id;
    - every handler is a function from the server state to the new state
      and the list of packets it sends; [console.log] lines are left out. *)

From stdpp Require Import gmap strings list fin_maps fin_sets.
From Stdlib Require Import ZArith.

Open Scope string_scope.
Open Scope list_scope.
Set Warnings "-register-all,-clear-no-such-hyp".

(** ** JavaScript values carried by events and request bodies *)

Inductive jsval : Type :=
  | JUndefined
  | JNull
  | JBool (b : bool)
  | JNum (n : Z)
  | JStr (s : string)
  | JArr (items : list jsval)
  | JObj (fields : list (string * jsval)).

(** [!v]: the values JavaScript treats as false in a condition.  Numbers
    are integers here (the only number the server produces is a [size]). *)
Definition truthy (v : jsval) : bool :=
  match v with
  | JUndefined | JNull => false
  | JBool b => b
  | JNum n => negb (n =? 0)%Z
  | JStr s => negb (String.eqb s "")
  | JArr _ | JObj _ => true
  end.

(** Field lookup in an object written as the list of its fields in order;
    as in an object literal or in [JSON.parse], a key that is written
    twice holds its last value. *)
Fixpoint assoc (k : string) (fields : list (string * jsval)) : option jsval :=
  match fields with
  | [] => None
  | (k', v) :: rest =>
      match assoc k rest with
      | Some w => Some w
      | None => if String.eqb k k' then Some v else None
      end
  end.

(** [v.k] for the keys the server reads ([userId], [progress],
    [targetUserId]): reading a property of [null] or [undefined] throws a
    TypeError ([None]); an object yields the field or [undefined]; any
    other value has no such property and yields [undefined]. *)
Definition get_prop (v : jsval) (k : string) : option jsval :=
  match v with
  | JUndefined | JNull => None
  | JObj fields => Some (default JUndefined (assoc k fields))
  | _ => Some JUndefined
  end.

(** ** Server state *)

Definition socket_id := string.

Record server : Type := mkServer {
  connectedUsers : gmap string jsval;   (* let connectedUsers = new Map() *)
  sockets : gset string                 (* the transport's open connections *)
}.

Definition initial : server := mkServer ∅ ∅.

(** A packet the server sends to one client. *)
Record emission : Type := mkEmission {
  em_to : socket_id;
  em_event : string;
  em_data : jsval
}.

(** ** Socket.IO primitives used by the handlers *)

(** [io.emit(ev, data)]: one packet to every open socket. *)
Definition io_emit (s : server) (ev : string) (data : jsval) : list emission :=
  (λ c, mkEmission c ev data) <$> elements (sockets s).

(** The members of the room one key names.  The rooms that exist are the
    per-socket ones, keyed by the socket id, a string: a key that is not
    the id of an open socket names no room. *)
Definition key_members (s : server) (key : jsval) : gset string :=
  match key with
  | JStr r => if decide (r ∈ sockets s) then {[ r ]} else ∅
  | _ => ∅
  end.

(** The sockets [socket.to(room)] addresses.  [to] takes one key or an
    array of keys and collects them in a set of rooms; the emit then goes
    to the members of every room of that set that exists, and, when the
    set is empty (an empty array was passed), to every open socket, as a
    plain broadcast does. *)
Definition room_members (s : server) (room : jsval) : gset string :=
  match room with
  | JArr [] => sockets s
  | JArr keys => ⋃ (key_members s <$> keys)
  | key => key_members s key
  end.

(** [socket.to(room).emit(ev, data)]: one packet to every socket addressed
    except the calling socket; nothing at all when no room of the set
    exists. *)
Definition socket_to_emit (s : server) (self : socket_id) (room : jsval)
    (ev : string) (data : jsval) : list emission :=
  (λ c, mkEmission c ev data) <$> elements (room_members s room ∖ {[ self ]}).

(** ** Socket handlers, in the order of [io.on('connection', ...)] *)

(** The connection callback itself only logs the id and registers the
    four listeners below. *)
Definition on_connection (id : socket_id) (s : server) : server * list emission :=
  (s, []).

Definition on_userJoined (id : socket_id) (userData : jsval) (s : server)
    : server * list emission :=
  let s' := mkServer (<[ id := userData ]> (connectedUsers s)) (sockets s) in
  (s', io_emit s' "onlineUsers" (JNum (Z.of_nat (size (connectedUsers s'))))).

Definition on_disconnect (id : socket_id) (s : server) : server * list emission :=
  let s' := mkServer (delete id (connectedUsers s)) (sockets s) in
  (s', io_emit s' "onlineUsers" (JNum (Z.of_nat (size (connectedUsers s'))))).

Definition on_chatMessage (id : socket_id) (data : jsval) (s : server)
    : server * list emission :=
  (s, io_emit s "chatMessage" data).

(** [data.targetUserId] throws when [data] is [null] or [undefined]. *)
Definition on_battleInvite (id : socket_id) (data : jsval) (s : server)
    : option (server * list emission) :=
  target ← get_prop data "targetUserId";
  Some (s, socket_to_emit s id target "battleInvite" data).

(** ** The event loop *)

Inductive client_event : Type :=
  | userJoined (userData : jsval)
  | disconnect
  | chatMessage (data : jsval)
  | battleInvite (data : jsval).

Inductive input : Type :=
  | Connect (id : socket_id)
  | FromSocket (id : socket_id) (ev : client_event).

(** The transport opens the socket before the connection callback runs,
    and closes it (it leaves the table of open connections and its room)
    before the [disconnect] listener runs. *)
Definition open_socket (id : socket_id) (s : server) : server :=
  mkServer (connectedUsers s) ({[ id ]} ∪ sockets s).

Definition close_socket (id : socket_id) (s : server) : server :=
  mkServer (connectedUsers s) (sockets s ∖ {[ id ]}).

Definition dispatch (id : socket_id) (ev : client_event) (s : server)
    : option (server * list emission) :=
  match ev with
  | userJoined userData => Some (on_userJoined id userData s)
  | disconnect => Some (on_disconnect id (close_socket id s))
  | chatMessage data => Some (on_chatMessage id data s)
  | battleInvite data => on_battleInvite id data s
  end.

(** What the transport can deliver in a state: a connection under an id
    that is not in use, or an event of a socket that is open (the
    listeners are registered per socket inside the connection callback). *)
Definition enabled (s : server) (i : input) : bool :=
  match i with
  | Connect id => bool_decide (id ∉ sockets s)
  | FromSocket id _ => bool_decide (id ∈ sockets s)
  end.

(** One turn of the event loop; [None] when the transport cannot deliver
    the input in this state or the listener throws. *)
Definition step (s : server) (i : input) : option (server * list emission) :=
  if enabled s i then
    match i with
    | Connect id => Some (on_connection id (open_socket id s))
    | FromSocket id ev => dispatch id ev s
    end
  else None.

Fixpoint run (s : server) (tr : list input) : option server :=
  match tr with
  | [] => Some s
  | i :: tr' => '(s', _) ← step s i; run s' tr'
  end.

(** ** HTTP endpoints *)

Record response : Type := mkResponse {
  status : Z;
  body : jsval
}.

(** [res.json(v)] answers with status 200 unless [res.status] was called. *)
Definition res_json (v : jsval) : response := mkResponse 200 v.
Definition res_status_json (code : Z) (v : jsval) : response := mkResponse code v.

(** GET /api/users/online *)
Definition get_users_online (s : server) : server * response :=
  (s, res_json (JObj [("count", JNum (Z.of_nat (size (connectedUsers s))))])).

(** POST /api/progress; [req_body] is [req.body].  The destructuring
    [const { userId, progress } = req.body] throws on [null] and
    [undefined], which the [catch] block answers with a 500. *)
Definition post_progress (s : server) (req_body : jsval) : server * response :=
  match get_prop req_body "userId", get_prop req_body "progress" with
  | Some userId, Some progress =>
      if negb (truthy userId) then
        (s, res_status_json 400 (JObj [("error", JStr "User ID is required")]))
      else if negb (truthy progress) then
        (s, res_status_json 400 (JObj [("error", JStr "Progress data is required")]))
      else
        (s, res_json (JObj [("success", JBool true); ("message", JStr "Progress saved")]))
  | _, _ =>
      (s, res_status_json 500 (JObj [("error", JStr "Failed to save progress")]))
  end.

(** ** Vocabulary of the design document *)

(** [out] is a broadcast of [(ev, data)]: exactly one packet for each open
    connection of [s], and nothing else. *)
Definition broadcast_of (s : server) (ev : string) (data : jsval)
    (out : list emission) : Prop :=
  NoDup out ∧
  ∀ e, e ∈ out ↔ em_to e ∈ sockets s ∧ em_event e = ev ∧ em_data e = data.

(** The two-phase lifecycle of one connection [c] (connect, then join,
    then active): after each input, has [c] joined since it connected? *)
Definition lifecycle_step (c : socket_id) (joined : bool) (i : input) : bool :=
  match i with
  | Connect c' => if decide (c' = c) then false else joined
  | FromSocket c' (userJoined _) => if decide (c' = c) then true else joined
  | FromSocket c' disconnect => if decide (c' = c) then false else joined
  | FromSocket _ _ => joined
  end.

Definition has_joined (tr : list input) (c : socket_id) : bool :=
  fold_left (lifecycle_step c) tr false.

(** The registry holds exactly the connections that have joined since
    they connected, and all of them are open. *)
Definition registry_inv (tr : list input) (s : server) : Prop :=
  ∀ c, is_Some (connectedUsers s !! c) ↔ has_joined tr c = true ∧ c ∈ sockets s.

(** Number of the inputs of [tr] that satisfy [P], which may look at the
    inputs that came before ([past], oldest first). *)
Fixpoint count_events (P : list input → input → bool) (past tr : list input) : nat :=
  match tr with
  | [] => 0
  | i :: tr' => (if P past i then 1 else 0) + count_events P (past ++ [i]) tr'
  end.

Definition is_join (past : list input) (i : input) : bool :=
  match i with FromSocket _ (userJoined _) => true | _ => false end.

Definition is_first_join (past : list input) (i : input) : bool :=
  match i with
  | FromSocket c (userJoined _) => negb (has_joined past c)
  | _ => false
  end.

Definition is_disconnect_of_joined (past : list input) (i : input) : bool :=
  match i with
  | FromSocket c disconnect => has_joined past c
  | _ => false
  end.

Definition joins (tr : list input) : nat := count_events is_join [] tr.
Definition first_joins (tr : list input) : nat := count_events is_first_join [] tr.
Definition disconnects_of_joined (tr : list input) : nat :=
  count_events is_disconnect_of_joined [] tr.

(** A field is supplied when the request body is an object that has it. *)
Definition supplied (req_body : jsval) (k : string) : bool :=
  match req_body with
  | JObj fields => bool_decide (is_Some (assoc k fields))
  | _ => false
  end.

Definition progress_saved : response :=
  res_json (JObj [("success", JBool true); ("message", JStr "Progress saved")]).

Definition bad_request (msg : string) : response :=
  res_status_json 400 (JObj [("error", JStr msg)]).

(** ** GET /api/health *)

(** What the handler reads from the Node process. *)
Record process_info : Type := mkProcess {
  uptime_seconds : Z;          (* Math.floor(process.uptime()) *)
  heapUsed : Z;                (* process.memoryUsage().heapUsed, bytes *)
  heapTotal : Z;               (* process.memoryUsage().heapTotal, bytes *)
  env : gmap string string;    (* process.env *)
  now_iso : string             (* new Date().toISOString() *)
}.

(** [Math.round(bytes / 1024 / 1024)] on a byte count: the two divisions
    by a power of two are exact, and [Math.round] takes the nearest
    integer, a tie going up. *)
Definition to_MB (bytes : Z) : Z := ((bytes + 524288) / 1048576)%Z.

(** [!!process.env[k]]: the variable is set and is not the empty string. *)
Definition env_flag (p : process_info) (k : string) : bool :=
  match env p !! k with
  | Some v => negb (String.eqb v "")
  | None => false
  end.

Definition get_health (p : process_info) (s : server) : server * response :=
  (s, res_json (JObj [
    ("status", JStr "ok");
    ("message", JStr "IDFS StarGuide server is running");
    ("timestamp", JStr (now_iso p));
    ("connectedUsers", JNum (Z.of_nat (size (connectedUsers s))));
    ("uptime", JNum (uptime_seconds p));
    ("services", JObj [
      ("firebase", JObj [("admin", JBool true); ("firestore", JBool true)]);
      ("ai", JObj [("openai", JBool (env_flag p "OPENAI_API_KEY"));
                   ("claude", JBool (env_flag p "CLAUDE_API_KEY"));
                   ("gemini", JBool (env_flag p "GEMINI_API_KEY"))])]);
    ("memory", JObj [("used", JNum (to_MB (heapUsed p)));
                     ("total", JNum (to_MB (heapTotal p)))])])).

(** ** The secrets loader

    [loadSecrets] collects the four keys of [secretKeys], first from
    [window.INJECTED_SECRETS] (trimmed), then from [process.env], and in a
    browser publishes what it found on [window].  [String.prototype.trim]
    is a parameter [trim]: what follows holds whatever it strips. *)

Definition secretKeys : list string :=
  ["OPENAI_API_KEY"; "CLAUDE_API_KEY"; "GEMINI_API_KEY"; "OPENAI_MODEL"].

(** [o[k]] where [o] has passed a truthiness test. *)
Definition prop_of (o : jsval) (k : string) : jsval :=
  default JUndefined (get_prop o k).

(** [a || b] *)
Definition js_or (a b : jsval) : jsval := if truthy a then a else b.

(** The fields of [window] the loader and [getEnvVar] touch. *)
Record window : Type := mkWindow {
  INJECTED_SECRETS : jsval;
  win_env : jsval;             (* window.env *)
  openaiKey : jsval;
  claudeKey : jsval;
  geminiKey : jsval
}.

(** Where the script runs: [the_window] is [None] when
    [typeof window === 'undefined'], [process_env] is [None] when
    [typeof process === 'undefined'] and holds [process.env] otherwise. *)
Record realm : Type := mkRealm {
  the_window : option window;
  process_env : option jsval
}.

(** One round of the first loop.  [window.INJECTED_SECRETS[key].trim()]
    throws ([None]) when the value is truthy and is not a string. *)
Definition take_injected (trim : string → string) (injected : jsval)
    (secrets : gmap string jsval) (key : string) : option (gmap string jsval) :=
  match prop_of injected key with
  | JStr v =>
      if truthy (JStr v) && truthy (JStr (trim v))
      then Some (<[ key := JStr (trim v) ]> secrets)
      else Some secrets
  | v => if truthy v then None else Some secrets
  end.

Fixpoint for_keys (f : gmap string jsval → string → option (gmap string jsval))
    (keys : list string) (secrets : gmap string jsval) : option (gmap string jsval) :=
  match keys with
  | [] => Some secrets
  | key :: rest => secrets' ← f secrets key; for_keys f rest secrets'
  end.

(** One round of the second loop:
    [if (!secrets[key] && process.env[key]) secrets[key] = process.env[key]] *)
Definition take_env (penv : jsval) (secrets : gmap string jsval) (key : string)
    : gmap string jsval :=
  if negb (truthy (default JUndefined (secrets !! key))) && truthy (prop_of penv key)
  then <[ key := prop_of penv key ]> secrets
  else secrets.

(** The object [{ ...secrets, OPENAI_MODEL: secrets.OPENAI_MODEL || 'gpt-3.5-turbo' }],
    written as the list of its fields. *)
Definition published (secrets : gmap string jsval) : jsval :=
  JObj (map_to_list
          (<[ "OPENAI_MODEL" :=
                js_or (default JUndefined (secrets !! "OPENAI_MODEL")) (JStr "gpt-3.5-turbo") ]>
             secrets)).

Definition publish (secrets : gmap string jsval) (w : window) : window :=
  mkWindow (published secrets) (win_env w)
    (js_or (default JUndefined (secrets !! "OPENAI_API_KEY")) (JStr ""))
    (js_or (default JUndefined (secrets !! "CLAUDE_API_KEY")) (JStr ""))
    (js_or (default JUndefined (secrets !! "GEMINI_API_KEY")) (JStr "")).

(** The first loop, under its guard
    [typeof window !== 'undefined' && window.INJECTED_SECRETS]. *)
Definition from_injected (trim : string → string) (r : realm)
    : option (gmap string jsval) :=
  match the_window r with
  | Some w =>
      if truthy (INJECTED_SECRETS w)
      then for_keys (take_injected trim (INJECTED_SECRETS w)) secretKeys ∅
      else Some ∅
  | None => Some ∅
  end.

(** The second loop, under its guard
    [typeof process !== 'undefined' && process.env]. *)
Definition from_env (r : realm) (secrets : gmap string jsval) : gmap string jsval :=
  match process_env r with
  | Some penv => if truthy penv then fold_left (take_env penv) secretKeys secrets else secrets
  | None => secrets
  end.

(** [loadSecrets()]: the secrets the promise resolves to, and the realm
    afterwards.  An exception in the [try] block is caught and answered
    with [{}]; nothing has been written to [window] by then. *)
Definition loadSecrets (trim : string → string) (r : realm)
    : gmap string jsval * realm :=
  match from_injected trim r with
  | None => (∅, r)
  | Some injected =>
      let secrets := from_env r injected in
      (secrets,
       match the_window r with
       | Some w => mkRealm (Some (publish secrets w)) (process_env r)
       | None => r
       end)
  end.

(** An injected value the first loop can handle: a string, or a falsy
    value. *)
Definition trimmable (injected : jsval) (key : string) : bool :=
  match prop_of injected key with
  | JStr _ => true
  | v => negb (truthy v)
  end.

(** The realms in which the first loop runs to its end: outside a
    browser, without injected secrets, or when each of the four injected
    values can be handled. *)
Definition loads_cleanly (r : realm) : bool :=
  match the_window r with
  | Some w =>
      if truthy (INJECTED_SECRETS w)
      then forallb (trimmable (INJECTED_SECRETS w)) secretKeys
      else true
  | None => true
  end.

(** The secret an injected object offers for [key]: a string that is not
    blank, trimmed. *)
Definition usable_injected (trim : string → string) (injected : jsval) (key : string)
    : option jsval :=
  match prop_of injected key with
  | JStr v => if truthy (JStr v) && truthy (JStr (trim v)) then Some (JStr (trim v)) else None
  | _ => None
  end.

Definition injected_value (trim : string → string) (r : realm) (key : string)
    : option jsval :=
  match the_window r with
  | Some w =>
      if truthy (INJECTED_SECRETS w)
      then usable_injected trim (INJECTED_SECRETS w) key
      else None
  | None => None
  end.

(** A usable value for [key] in [process.env]: any truthy value. *)
Definition env_value (r : realm) (key : string) : option jsval :=
  match process_env r with
  | Some penv =>
      if truthy penv && truthy (prop_of penv key) then Some (prop_of penv key) else None
  | None => None
  end.

(** [getEnvVar(varName, fallback)] of the configuration script. *)
Definition getEnvVar (r : realm) (varName : string) (fallback : jsval) : jsval :=
  match the_window r with
  | Some w =>
      if truthy (INJECTED_SECRETS w) && truthy (prop_of (INJECTED_SECRETS w) varName)
      then prop_of (INJECTED_SECRETS w) varName
      else if truthy (win_env w) && truthy (prop_of (win_env w) varName)
      then prop_of (win_env w) varName
      else fallback
  | None => fallback
  end.

(** [process.env[k] || dflt] in the build script, where [process.env]
    holds strings. *)
Definition env_or (benv : gmap string string) (k dflt : string) : string :=
  match benv !! k with
  | Some v => if String.eqb v "" then dflt else v
  | None => dflt
  end.

(** The object the build script injects as [window.INJECTED_SECRETS]. *)
Definition build_secrets (benv : gmap string string) : jsval :=
  JObj [("OPENAI_API_KEY", JStr (env_or benv "OPENAI_API_KEY" ""));
        ("CLAUDE_API_KEY", JStr (env_or benv "CLAUDE_API_KEY" ""));
        ("GEMINI_API_KEY", JStr (env_or benv "GEMINI_API_KEY" ""));
        ("OPENAI_MODEL", JStr (env_or benv "OPENAI_MODEL" "gpt-3.5-turbo"))].

(** A stand-in for [trim] on plain ASCII text (it strips the blanks at
    both ends), to run the loader on examples. *)
Fixpoint drop_spaces (s : string) : string :=
  match s with
  | String a rest => if Ascii.is_space a then drop_spaces rest else s
  | EmptyString => EmptyString
  end.

Definition trim_ascii (s : string) : string :=
  String.rev (drop_spaces (String.rev (drop_spaces s))).

(** The connection an input comes from. *)
Definition input_id (i : input) : socket_id :=
  match i with Connect id => id | FromSocket id _ => id end.

(** The inputs whose listener writes to [connectedUsers]. *)
Definition changes_membership (i : input) : bool :=
  match i with
  | FromSocket _ (userJoined _) | FromSocket _ disconnect => true
  | _ => false
  end.

(** ** Basic facts about the primitives *)

Section Primitives.
Implicit Types (s : server) (c id : socket_id) (ev : string) (data : jsval).

#[local] Instance mkEmission_inj ev data : Inj (=) (=) (λ c, mkEmission c ev data).
Proof. intros c1 c2 Heq. by injection Heq. Qed.

Lemma elem_of_packets (X : gset string) ev data e :
  e ∈ (λ c, mkEmission c ev data) <$> elements X ↔
  em_to e ∈ X ∧ em_event e = ev ∧ em_data e = data.
Proof.
  rewrite list_elem_of_fmap. split.
  - intros (c & -> & Hc). by apply elem_of_elements in Hc.
  - intros (Hc & <- & <-). exists (em_to e). split; [by destruct e|].
    by apply elem_of_elements.
Qed.

Lemma io_emit_broadcast s ev data : broadcast_of s ev data (io_emit s ev data).
Proof.
  split.
  - apply (NoDup_fmap_2 _), NoDup_elements.
  - intros e. apply elem_of_packets.
Qed.

Lemma elem_of_socket_to_emit s self room ev data e :
  e ∈ socket_to_emit s self room ev data ↔
  (em_to e ∈ room_members s room ∧ em_to e ≠ self) ∧
  em_event e = ev ∧ em_data e = data.
Proof.
  unfold socket_to_emit. rewrite elem_of_packets.
  rewrite elem_of_difference, not_elem_of_singleton. tauto.
Qed.

Lemma elem_of_key_members s key c :
  c ∈ key_members s key ↔ key = JStr c ∧ c ∈ sockets s.
Proof.
  destruct key; simpl; try (rewrite elem_of_empty; naive_solver).
  case_decide.
  - rewrite elem_of_singleton. naive_solver.
  - rewrite elem_of_empty. naive_solver.
Qed.


(** An array of keys addresses the open sockets it names, and every open
    socket when it is empty. *)
Lemma elem_of_room_members_JArr s keys c :
  c ∈ room_members s (JArr keys) ↔
  c ∈ sockets s ∧ (keys = [] ∨ JStr c ∈ keys).
Proof.
  destruct keys as [|key keys]; [simpl; naive_solver|].
  change (room_members s (JArr (key :: keys)))
    with (⋃ (key_members s <$> key :: keys)).
  rewrite elem_of_union_list. split.
  - intros (X & HX & Hc). apply list_elem_of_fmap in HX as (k & -> & Hk).
    apply elem_of_key_members in Hc as [-> Hopen]. split; [done|]. by right.
  - intros [Hopen [? | Hin]]; [done|].
    exists (key_members s (JStr c)). split.
    + apply list_elem_of_fmap. by exists (JStr c).
    + by apply elem_of_key_members.
Qed.

(** Whatever the key, only open sockets are addressed. *)
Lemma room_members_open s room c :
  c ∈ room_members s room → c ∈ sockets s.
Proof.
  destruct room as [| |b|n|r|keys|fields];
    try (intros Hc;
         match type of Hc with
         | _ ∈ room_members _ ?key => change (c ∈ key_members s key) in Hc
         end;
         by apply elem_of_key_members in Hc as [_ ?]).
  by intros [? _]%elem_of_room_members_JArr.
Qed.


Lemma socket_to_emit_self s self ev data :
  socket_to_emit s self (JStr self) ev data = [].
Proof.
  unfold socket_to_emit, room_members, key_members.
  replace ((if decide (self ∈ sockets s) then {[self]} else ∅) ∖ {[self]})
    with (∅ : gset string) by (case_decide; set_solver).
  by rewrite elements_empty.
Qed.

End Primitives.

(** ** Replaying a sequence of inputs *)

Section Replay.
Implicit Types (s : server) (c id : socket_id) (tr past : list input) (i : input).

Lemma run_app s tr1 tr2 : run s (tr1 ++ tr2) = s' ← run s tr1; run s' tr2.
Proof.
  revert s. induction tr1 as [|i tr1 IH]; intros s; simpl; [done|].
  destruct (step s i) as [[s1 out]|]; simpl; [apply IH | done].
Qed.

Lemma run_snoc s tr i :
  run s (tr ++ [i]) = s' ← run s tr; fst <$> step s' i.
Proof.
  rewrite run_app. destruct (run s tr) as [s1|]; simpl; [|done].
  by destruct (step s1 i) as [[s2 out]|].
Qed.

Lemma run_prefix s tr1 tr2 s2 :
  run s (tr1 ++ tr2) = Some s2 → ∃ s1, run s tr1 = Some s1 ∧ run s1 tr2 = Some s2.
Proof.
  rewrite run_app. destruct (run s tr1) as [s1|]; simpl; [eauto | done].
Qed.

Lemma has_joined_snoc tr i c :
  has_joined (tr ++ [i]) c = lifecycle_step c (has_joined tr c) i.
Proof. unfold has_joined. by rewrite fold_left_app. Qed.

Lemma count_events_snoc P past tr i :
  count_events P past (tr ++ [i]) =
  count_events P past tr + (if P (past ++ tr) i then 1 else 0).
Proof.
  revert past. induction tr as [|j tr IH]; intros past; simpl.
  - rewrite app_nil_r. lia.
  - rewrite IH, <- app_assoc. simpl. lia.
Qed.

(** The shapes a turn of the event loop can take. *)
Lemma step_Connect s id s' out :
  step s (Connect id) = Some (s', out) →
  (id ∉ sockets s) ∧ s' = open_socket id s ∧ out = [].
Proof.
  unfold step, enabled. case_bool_decide; [|done].
  unfold on_connection. naive_solver.
Qed.

Lemma step_FromSocket s id ev s' out :
  step s (FromSocket id ev) = Some (s', out) →
  id ∈ sockets s ∧ dispatch id ev s = Some (s', out).
Proof. unfold step, enabled. case_bool_decide; naive_solver. Qed.

Lemma step_enabled s id ev :
  id ∈ sockets s → step s (FromSocket id ev) = dispatch id ev s.
Proof. intros Hid. unfold step, enabled. by rewrite bool_decide_eq_true_2. Qed.

(** A deliverable input is handled to the end unless it is a
    [battleInvite] whose payload is [null] or [undefined]. *)
Lemma step_total s i :
  enabled s i = true →
  (∀ id data, i = FromSocket id (battleInvite data) →
              is_Some (get_prop data "targetUserId")) →
  is_Some (step s i).
Proof.
  intros Hen Hdata. unfold step. rewrite Hen.
  destruct i as [id|id [u| |d|d]]; simpl; try by eexists.
  unfold on_battleInvite.
  destruct (Hdata id d eq_refl) as [t ->]. by eexists.
Qed.

Lemma registry_inv_step tr s i s' out :
  registry_inv tr s → step s i = Some (s', out) → registry_inv (tr ++ [i]) s'.
Proof.
  intros Hinv Hstep c. rewrite has_joined_snoc. specialize (Hinv c).
  destruct i as [id|id ev].
  - apply step_Connect in Hstep as (Hfresh & -> & _). simpl.
    case_decide as Heq.
    + subst id. split; [|naive_solver]. intros Hc. apply Hinv in Hc. naive_solver.
    + rewrite Hinv. set_solver.
  - apply step_FromSocket in Hstep as (Hlive & Hd).
    destruct ev as [u| |d|d]; simpl in *.
    + injection Hd as <- _. simpl. case_decide as Heq.
      * subst id. rewrite lookup_insert_eq. naive_solver.
      * by rewrite lookup_insert_ne.
    + injection Hd as <- _. simpl. case_decide as Heq.
      * subst id. rewrite lookup_delete_eq. split; [by intros [??]|naive_solver].
      * rewrite lookup_delete_ne by done. rewrite Hinv. set_solver.
    + by injection Hd as <- _.
    + unfold on_battleInvite in Hd.
      destruct (get_prop d "targetUserId"); simpl in Hd; [|done].
      by injection Hd as <- _.
Qed.

Lemma registry_inv_run tr s : run initial tr = Some s → registry_inv tr s.
Proof.
  revert s. induction tr as [|i tr IH] using rev_ind; intros s Hrun.
  - injection Hrun as <-. intros c. simpl. rewrite lookup_empty.
    split; [by intros [??] | by intros [? _]].
  - rewrite run_snoc in Hrun.
    destruct (run initial tr) as [s0|]; simpl in Hrun; [|done].
    destruct (step s0 i) as [[s1 out]|] eqn:Hstep; simpl in Hrun; [|done].
    injection Hrun as <-. eapply registry_inv_step; eauto.
Qed.
End Replay.

(** ** Message relay and targeted notification relay *)




(** C10: a [battleInvite] never comes back to the connection that sent
    it, whatever the payload names as target; when the target is the
    sender's own id, nobody receives anything. *)
Theorem battleInvite_not_to_sender (s : server) (A : socket_id) (data target : jsval) :
  A ∈ sockets s →
  get_prop data "targetUserId" = Some target →
  ∃ out,
    step s (FromSocket A (battleInvite data)) = Some (s, out) ∧
    (∀ e, e ∈ out → em_to e ≠ A) ∧
    (target = JStr A → out = []).
Proof.
  intros HA Htarget.
  exists (socket_to_emit s A target "battleInvite" data).
  rewrite step_enabled by done. simpl. unfold on_battleInvite.
  rewrite Htarget. simpl. repeat split.
  - intros e. rewrite elem_of_socket_to_emit. tauto.
  - intros ->. apply socket_to_emit_self.
Qed.

Lemma battleInvite_not_to_sender_witness :
  let s := mkServer ∅ {[ "a"; "b"; "c" ]} in
  let data := JObj [("targetUserId", JStr "a")] in
  ∃ out,
    step s (FromSocket "a" (battleInvite data)) = Some (s, out) ∧
    (∀ e, e ∈ out → em_to e ≠ "a") ∧
    (JStr "a" = JStr "a" → out = []).
Proof.
  intros s data.
  apply (battleInvite_not_to_sender s "a" data (JStr "a")).
  - vm_compute. reflexivity.
  - reflexivity.
Defined.

(** C2: a [chatMessage] with payload [p] sent by an open connection [A]
    is broadcast: every open connection, [A] included, gets exactly one
    [chatMessage] packet carrying [p] itself, nothing else is sent, and
    the server state is as before. *)
Theorem chatMessage_broadcast (s : server) (A : socket_id) (p : jsval) :
  A ∈ sockets s →
  ∃ out,
    step s (FromSocket A (chatMessage p)) = Some (s, out) ∧
    broadcast_of s "chatMessage" p out ∧
    mkEmission A "chatMessage" p ∈ out.
Proof.
  intros HA. exists (io_emit s "chatMessage" p).
  rewrite step_enabled by done. simpl. unfold on_chatMessage.
  split; [done|]. split; [apply io_emit_broadcast|].
  by apply io_emit_broadcast.
Qed.

Lemma chatMessage_broadcast_witness :
  let s := mkServer ∅ {[ "a"; "b" ]} in
  ∃ out,
    step s (FromSocket "a" (chatMessage (JStr "hello"))) = Some (s, out) ∧
    broadcast_of s "chatMessage" (JStr "hello") out ∧
    mkEmission "a" "chatMessage" (JStr "hello") ∈ out.
Proof.
  intros s. apply (chatMessage_broadcast s "a" (JStr "hello")).
  vm_compute. reflexivity.
Defined.

(** ** Connection registry and presence broadcaster *)

(** C5: the [userJoined] listener registers the connection and the
    [disconnect] listener unregisters it, and each then broadcasts
    [onlineUsers] to the connections that are open at that moment (after a
    disconnect: the remaining ones), carrying the size the registry has
    right after the change. *)
Theorem onlineUsers_after_change (s : server) (id : socket_id) (userData : jsval) :
  id ∈ sockets s →
  (∃ s' out,
     step s (FromSocket id (userJoined userData)) = Some (s', out) ∧
     connectedUsers s' = <[ id := userData ]> (connectedUsers s) ∧
     sockets s' = sockets s ∧
     broadcast_of s' "onlineUsers" (JNum (Z.of_nat (size (connectedUsers s')))) out) ∧
  (∃ s' out,
     step s (FromSocket id disconnect) = Some (s', out) ∧
     connectedUsers s' = delete id (connectedUsers s) ∧
     sockets s' = sockets s ∖ {[ id ]} ∧
     broadcast_of s' "onlineUsers" (JNum (Z.of_nat (size (connectedUsers s')))) out).
Proof.
  intros Hid. split; rewrite step_enabled by done; simpl.
  - unfold on_userJoined. eexists _, _. split; [reflexivity|].
    split; [done|]. split; [done|]. apply io_emit_broadcast.
  - unfold on_disconnect. eexists _, _. split; [reflexivity|].
    split; [done|]. split; [done|]. apply io_emit_broadcast.
Qed.

Lemma onlineUsers_after_change_witness :
  let s := mkServer {[ "a" := JStr "Ann" ]} {[ "a"; "b" ]} in
  (∃ s' out,
     step s (FromSocket "b" (userJoined (JStr "Bob"))) = Some (s', out) ∧
     connectedUsers s' = <[ "b" := JStr "Bob" ]> (connectedUsers s) ∧
     sockets s' = sockets s ∧
     broadcast_of s' "onlineUsers" (JNum (Z.of_nat (size (connectedUsers s')))) out) ∧
  (∃ s' out,
     step s (FromSocket "b" disconnect) = Some (s', out) ∧
     connectedUsers s' = delete "b" (connectedUsers s) ∧
     sockets s' = sockets s ∖ {[ "b" ]} ∧
     broadcast_of s' "onlineUsers" (JNum (Z.of_nat (size (connectedUsers s')))) out).
Proof.
  intros s. apply (onlineUsers_after_change s "b" (JStr "Bob")).
  vm_compute. reflexivity.
Defined.

(** C7: [userJoined] inserts or overwrites.  Two joins of one connection,
    with descriptors [u] then [v], leave the server in the state one join
    with [v] gives; the second join does not change the size of the
    registry, and the registry then holds [v] for that connection. *)
Theorem userJoined_overwrites (s : server) (c : socket_id) (u v : jsval) :
  let s1 := (on_userJoined c u s).1 in
  let s2 := (on_userJoined c v s1).1 in
  s2 = (on_userJoined c v s).1 ∧
  size (connectedUsers s2) = size (connectedUsers s1) ∧
  connectedUsers s2 !! c = Some v.
Proof.
  simpl. rewrite insert_insert_eq. repeat split.
  - rewrite <- (insert_insert_eq (connectedUsers s) c v u) at 1.
    apply map_size_insert_Some. rewrite lookup_insert_eq. by eexists.
  - apply lookup_insert_eq.
Qed.

(** C6: unregistering an id the registry does not hold changes nothing
    in it; and when a connection that has not sent [userJoined] since it
    connected disconnects, the registry has no entry for it, the listener
    returns (no error), and the registry, hence its size, is what it was. *)
Theorem disconnect_without_join (tr : list input) (s : server) (c : socket_id) :
  run initial tr = Some s →
  c ∈ sockets s →
  has_joined tr c = false →
  (∀ s0, connectedUsers s0 !! c = None →
         connectedUsers (on_disconnect c s0).1 = connectedUsers s0) ∧
  connectedUsers s !! c = None ∧
  ∃ s' out,
    step s (FromSocket c disconnect) = Some (s', out) ∧
    connectedUsers s' = connectedUsers s ∧
    size (connectedUsers s') = size (connectedUsers s).
Proof.
  intros Hrun Hlive Hnot.
  assert (Habsent : connectedUsers s !! c = None).
  { apply eq_None_not_Some. intros Hsome.
    apply (registry_inv_run _ _ Hrun) in Hsome as [Hj _]. congruence. }
  split; [intros s0 Hs0; simpl; by apply delete_id|].
  split; [done|].
  rewrite step_enabled by done. simpl. eexists _, _. split; [reflexivity|].
  simpl. rewrite delete_id by done. done.
Qed.

Lemma disconnect_without_join_witness :
  let tr := [Connect "a"; FromSocket "a" (userJoined (JStr "Ann")); Connect "b"] in
  ∃ s, run initial tr = Some s ∧
    (∀ s0, connectedUsers s0 !! "b" = None →
           connectedUsers (on_disconnect "b" s0).1 = connectedUsers s0) ∧
    connectedUsers s !! "b" = None ∧
    ∃ s' out,
      step s (FromSocket "b" disconnect) = Some (s', out) ∧
      connectedUsers s' = connectedUsers s ∧
      size (connectedUsers s') = size (connectedUsers s).
Proof.
  intros tr. eexists. split; [reflexivity|].
  apply (disconnect_without_join tr _ "b").
  - reflexivity.
  - vm_compute. reflexivity.
  - reflexivity.
Defined.

(** ** Registry against open connections *)

(** The statement of C3 read literally fails as soon as a client has
    connected and not joined: one connection is open, the registry is
    empty. *)
Lemma registry_size_not_open_count :
  let tr := [Connect "a"] in
  ∃ s, run initial tr = Some s ∧
    size (connectedUsers s) = 0 ∧ size (sockets s) = 1 ∧
    size (connectedUsers s) ≠ size (sockets s).
Proof. eexists. split; [reflexivity|]. repeat split; vm_compute; congruence. Qed.

(** C3, amended: in every reachable state the registry holds an entry for
    exactly the open connections that have joined since they connected;
    so every entry belongs to one open connection, the number of entries
    is the number of joined open connections, and it is at most the
    number of open connections. *)
Theorem registry_entries_are_joined_connections (tr : list input) (s : server) :
  run initial tr = Some s →
  (∀ c, c ∈ dom (connectedUsers s) ↔ c ∈ sockets s ∧ has_joined tr c = true) ∧
  size (connectedUsers s) = size (filter (λ c, has_joined tr c = true) (sockets s)) ∧
  (size (connectedUsers s) ≤ size (sockets s))%nat.
Proof.
  intros Hrun. pose proof (registry_inv_run _ _ Hrun) as Hinv.
  assert (Hdom : dom (connectedUsers s)
                 = filter (λ c, has_joined tr c = true) (sockets s)).
  { apply set_eq. intros c. rewrite elem_of_dom, elem_of_filter. apply Hinv. }
  split; [|split].
  - intros c. rewrite elem_of_dom, (Hinv c). tauto.
  - by rewrite <- Hdom, size_dom.
  - rewrite <- (size_dom (connectedUsers s)), Hdom.
    apply subseteq_size. intros c. rewrite elem_of_filter. tauto.
Qed.

Lemma registry_entries_are_joined_connections_witness :
  let tr := [Connect "a"; Connect "b"; FromSocket "b" (userJoined JNull)] in
  ∃ s, run initial tr = Some s ∧
    (∀ c, c ∈ dom (connectedUsers s) ↔ c ∈ sockets s ∧ has_joined tr c = true) ∧
    size (connectedUsers s) = size (filter (λ c, has_joined tr c = true) (sockets s)) ∧
    (size (connectedUsers s) ≤ size (sockets s))%nat.
Proof.
  intros tr. eexists. split; [reflexivity|].
  apply (registry_entries_are_joined_connections tr). reflexivity.
Defined.

(** The statement of C4 read literally fails when a connection joins
    twice: two [userJoined] events, no disconnect, one entry. *)
Lemma registry_size_not_joins_minus_disconnects :
  let tr := [Connect "a";
             FromSocket "a" (userJoined (JStr "Ann"));
             FromSocket "a" (userJoined (JStr "Ann"))] in
  ∃ s, run initial tr = Some s ∧
    size (connectedUsers s) = 1 ∧
    joins tr = 2 ∧ disconnects_of_joined tr = 0 ∧
    Z.of_nat (size (connectedUsers s))
    ≠ (Z.of_nat (joins tr) - Z.of_nat (disconnects_of_joined tr))%Z.
Proof. eexists. split; [reflexivity|]. repeat split; vm_compute; congruence. Qed.

Lemma registry_count_step (tr : list input) (s : server) (i : input)
    (s' : server) (out : list emission) :
  registry_inv tr s →
  step s i = Some (s', out) →
  size (connectedUsers s') + (if is_disconnect_of_joined tr i then 1 else 0)
  = size (connectedUsers s) + (if is_first_join tr i then 1 else 0).
Proof.
  intros Hinv Hstep. destruct i as [id|id ev].
  - apply step_Connect in Hstep as (_ & -> & _). done.
  - apply step_FromSocket in Hstep as (Hlive & Hd).
    pose proof (Hinv id) as Hid.
    destruct ev as [u| |d|d]; simpl in *.
    + injection Hd as <- _. simpl.
      destruct (has_joined tr id); simpl.
      * rewrite map_size_insert_Some by (apply Hid; done). lia.
      * rewrite map_size_insert_None; [lia|].
        apply eq_None_not_Some. intros Hsome. apply Hid in Hsome as [? _]. done.
    + injection Hd as <- _. simpl.
      destruct (has_joined tr id); simpl.
      * assert (Hsome : is_Some (connectedUsers s !! id)) by (apply Hid; done).
        rewrite map_size_delete_Some by done.
        apply map_size_ne_0_lookup_2 in Hsome.
        destruct (size (connectedUsers s)); simpl; [done | lia].
      * rewrite map_size_delete_None; [lia|].
        apply eq_None_not_Some. intros Hsome. apply Hid in Hsome as [? _]. done.
    + by injection Hd as <- _.
    + unfold on_battleInvite in Hd.
      destruct (get_prop d "targetUserId"); simpl in Hd; [|done].
      by injection Hd as <- _.
Qed.

Lemma registry_count_run (tr : list input) (s : server) :
  run initial tr = Some s →
  size (connectedUsers s) + disconnects_of_joined tr = first_joins tr.
Proof.
  unfold disconnects_of_joined, first_joins.
  revert s. induction tr as [|i tr IH] using rev_ind; intros s Hrun.
  - by injection Hrun as <-.
  - rewrite run_snoc in Hrun.
    destruct (run initial tr) as [s0|] eqn:Hrun0; simpl in Hrun; [|done].
    destruct (step s0 i) as [[s1 out]|] eqn:Hstep; simpl in Hrun; [|done].
    injection Hrun as <-. rewrite !count_events_snoc. simpl.
    pose proof (registry_count_step tr s0 i s1 out (registry_inv_run _ _ Hrun0) Hstep).
    specialize (IH s0 eq_refl). lia.
Qed.

(** C4, amended: replay any sequence of inputs the transport can deliver.
    At every point of it (after every prefix) the size of the registry is
    the number of first joins (a [userJoined] of a connection that has not
    joined since it connected) minus the number of disconnects of
    connections that had joined, and that difference is never negative. *)
Theorem registry_size_replay (pre suf : list input) (s : server) :
  run initial (pre ++ suf) = Some s →
  ∃ s0, run initial pre = Some s0 ∧
    (0 ≤ Z.of_nat (first_joins pre) - Z.of_nat (disconnects_of_joined pre))%Z ∧
    Z.of_nat (size (connectedUsers s0))
    = (Z.of_nat (first_joins pre) - Z.of_nat (disconnects_of_joined pre))%Z.
Proof.
  intros Hrun. apply run_prefix in Hrun as (s0 & Hpre & _).
  exists s0. split; [done|].
  apply registry_count_run in Hpre. lia.
Qed.

Lemma registry_size_replay_witness :
  let pre := [Connect "a"; Connect "b";
              FromSocket "a" (userJoined (JStr "Ann"));
              FromSocket "a" (userJoined (JStr "Ann"));
              FromSocket "b" disconnect;
              FromSocket "a" disconnect] in
  let suf := [Connect "c"; FromSocket "c" (userJoined JNull)] in
  ∃ s0, run initial pre = Some s0 ∧
    (0 ≤ Z.of_nat (first_joins pre) - Z.of_nat (disconnects_of_joined pre))%Z ∧
    Z.of_nat (size (connectedUsers s0))
    = (Z.of_nat (first_joins pre) - Z.of_nat (disconnects_of_joined pre))%Z.
Proof.
  intros pre suf.
  apply (registry_size_replay pre suf (mkServer {[ "c" := JNull ]} {[ "c" ]})).
  vm_compute. reflexivity.
Defined.

(** ** HTTP endpoints *)

(** C8: in every state, GET /api/users/online answers 200 with a JSON
    object whose [count] is the size the registry has at that moment, and
    leaves the state alone. *)
Theorem users_online_count (s : server) :
  (get_users_online s).1 = s ∧
  status (get_users_online s).2 = 200%Z ∧
  get_prop (body (get_users_online s).2) "count"
  = Some (JNum (Z.of_nat (size (connectedUsers s)))).
Proof. done. Qed.

(** The statement of C9 read literally fails on a body that supplies both
    fields with a progress of [0]: the answer is the 400 for a missing
    progress. *)
Lemma progress_zero_rejected :
  let req_body := JObj [("userId", JStr "u1"); ("progress", JNum 0)] in
  supplied req_body "userId" = true ∧
  supplied req_body "progress" = true ∧
  (post_progress initial req_body).2 = bad_request "Progress data is required" ∧
  (post_progress initial req_body).2 ≠ progress_saved.
Proof. repeat split; vm_compute; congruence. Qed.

(** C9, amended: for every request body that can be destructured (any
    value but [null] and [undefined]), POST /api/progress acknowledges
    success exactly when [userId] and [progress] both hold a truthy value;
    otherwise it answers 400 and names the first of the two, [userId]
    before [progress], that is missing or falsy.  In every case the server
    state is untouched: nothing is stored. *)
Theorem post_progress_truthy (s : server) (req_body userId progress : jsval) :
  get_prop req_body "userId" = Some userId →
  get_prop req_body "progress" = Some progress →
  (post_progress s req_body).1 = s ∧
  ((post_progress s req_body).2 = progress_saved
     ↔ truthy userId = true ∧ truthy progress = true) ∧
  (truthy userId = false →
     (post_progress s req_body).2 = bad_request "User ID is required") ∧
  (truthy userId = true → truthy progress = false →
     (post_progress s req_body).2 = bad_request "Progress data is required").
Proof.
  intros Hu Hp. unfold post_progress. rewrite Hu, Hp.
  destruct (truthy userId), (truthy progress); simpl;
    repeat split; try done; intros [? ?]; done.
Qed.

Lemma post_progress_truthy_witness :
  let req_body := JObj [("userId", JStr "u1"); ("progress", JObj [("level", JNum 3)])] in
  (post_progress initial req_body).1 = initial ∧
  ((post_progress initial req_body).2 = progress_saved
     ↔ truthy (JStr "u1") = true ∧ truthy (JObj [("level", JNum 3)]) = true) ∧
  (truthy (JStr "u1") = false →
     (post_progress initial req_body).2 = bad_request "User ID is required") ∧
  (truthy (JStr "u1") = true → truthy (JObj [("level", JNum 3)]) = false →
     (post_progress initial req_body).2 = bad_request "Progress data is required").
Proof.
  intros req_body.
  apply (post_progress_truthy initial req_body (JStr "u1") (JObj [("level", JNum 3)]));
    reflexivity.
Defined.

(** ** The scenarios of the design document *)

(** Three clients connect and join: the registry has three entries.  One
    disconnects: two entries, and [onlineUsers] with 2 goes to the two
    that remain. *)
Example three_clients_then_one_leaves :
  let tr := [Connect "a"; Connect "b"; Connect "c";
             FromSocket "a" (userJoined (JStr "Ann"));
             FromSocket "b" (userJoined (JStr "Bob"));
             FromSocket "c" (userJoined (JStr "Cy"))] in
  ∃ s s' out, run initial tr = Some s ∧
    size (connectedUsers s) = 3 ∧
    step s (FromSocket "c" disconnect) = Some (s', out) ∧
    size (connectedUsers s') = 2 ∧
    out = [mkEmission "a" "onlineUsers" (JNum 2);
           mkEmission "b" "onlineUsers" (JNum 2)].
Proof.
  eexists _, _, _. split; [reflexivity|]. split; [by vm_compute|].
  split; [by vm_compute|]. split; by vm_compute.
Qed.

(** Client a invites client c: only c receives the invite. *)
Example invite_reaches_target_only :
  let s := mkServer ∅ {[ "a"; "b"; "c" ]} in
  let data := JObj [("targetUserId", JStr "c")] in
  step s (FromSocket "a" (battleInvite data))
  = Some (s, [mkEmission "c" "battleInvite" data]).
Proof. by vm_compute. Qed.

(** ** Further properties of the relay *)

Lemma registry_inv_size (tr : list input) (s : server) :
  registry_inv tr s → (size (connectedUsers s) ≤ size (sockets s))%nat.
Proof.
  intros Hinv. rewrite <- (size_dom (connectedUsers s)).
  apply subseteq_size. intros c. rewrite elem_of_dom. intros Hc.
  by apply Hinv in Hc as [_ ?].
Qed.

Lemma run_step (tr : list input) (s s' : server) (i : input) (out : list emission) :
  run initial tr = Some s → step s i = Some (s', out) →
  run initial (tr ++ [i]) = Some s'.
Proof. intros Hrun Hstep. rewrite run_snoc, Hrun. simpl. by rewrite Hstep. Qed.

(** X1: whatever the input, every packet a turn of the event loop sends
    is addressed to a connection that is open once the turn is over (so
    never to a closed socket, and never to the socket whose disconnect is
    being handled), and it is one of the three events of the relay. *)
Theorem packets_reach_open_sockets (s s' : server) (i : input) (out : list emission) :
  step s i = Some (s', out) →
  ∀ e, e ∈ out →
    em_to e ∈ sockets s' ∧
    (em_to e ∉ sockets s ∖ sockets s') ∧
    em_event e ∈ ["onlineUsers"; "chatMessage"; "battleInvite"].
Proof.
  intros Hstep e He.
  assert (Hgoal : em_to e ∈ sockets s' ∧
                  em_event e ∈ ["onlineUsers"; "chatMessage"; "battleInvite"]).
  { destruct i as [id|id ev].
    - apply step_Connect in Hstep as (_ & _ & ->). by apply elem_of_nil in He.
    - apply step_FromSocket in Hstep as (Hlive & Hd).
      destruct ev as [u| |d|d]; simpl in Hd.
      + injection Hd as <- <-. apply elem_of_packets in He as (? & -> & _).
        split; [done|]. set_solver.
      + injection Hd as <- <-. apply elem_of_packets in He as (? & -> & _).
        split; [done|]. set_solver.
      + injection Hd as <- <-. apply elem_of_packets in He as (? & -> & _).
        split; [done|]. set_solver.
      + unfold on_battleInvite in Hd.
        destruct (get_prop d "targetUserId") as [t|]; simpl in Hd; [|done].
        injection Hd as <- <-.
        apply elem_of_socket_to_emit in He as ((Hroom & _) & -> & _).
        apply room_members_open in Hroom.
        split; [done|]. set_solver. }
  destruct Hgoal as [Hto Hev]. repeat split; [done| |done].
  rewrite elem_of_difference. tauto.
Qed.

Lemma packets_reach_open_sockets_witness :
  let s := mkServer {[ "a" := JNull; "b" := JNull ]} {[ "a"; "b" ]} in
  ∃ s' out, step s (FromSocket "b" disconnect) = Some (s', out) ∧
    ∀ e, e ∈ out →
      em_to e ∈ sockets s' ∧
      (em_to e ∉ sockets s ∖ sockets s') ∧
      em_event e ∈ ["onlineUsers"; "chatMessage"; "battleInvite"].
Proof.
  intros s. eexists _, _. split; [reflexivity|].
  apply (packets_reach_open_sockets s _ (FromSocket "b" disconnect)).
  reflexivity.
Defined.

(** X2: a turn of the event loop touches at most the registry entry of
    the connection the input comes from: the entry of every other
    connection is what it was, and a connect, a [chatMessage] or a
    [battleInvite] leaves the whole registry as it was.  The set of open
    connections changes only by that connection too. *)
Theorem only_own_entry_changes (s s' : server) (i : input) (out : list emission) :
  step s i = Some (s', out) →
  (∀ c, c ≠ input_id i →
        connectedUsers s' !! c = connectedUsers s !! c ∧
        (c ∈ sockets s' ↔ c ∈ sockets s)) ∧
  (changes_membership i = false → connectedUsers s' = connectedUsers s).
Proof.
  intros Hstep. destruct i as [id|id ev]; simpl.
  - apply step_Connect in Hstep as (_ & -> & _). simpl.
    split; [|done]. intros c Hc. split; [done|]. set_solver.
  - apply step_FromSocket in Hstep as (Hlive & Hd).
    destruct ev as [u| |d|d]; simpl in *.
    + injection Hd as <- _. simpl. split; [|done].
      intros c Hc. by rewrite lookup_insert_ne.
    + injection Hd as <- _. simpl. split; [|done].
      intros c Hc. rewrite lookup_delete_ne by done. split; [done|]. set_solver.
    + injection Hd as <- _. done.
    + unfold on_battleInvite in Hd.
      destruct (get_prop d "targetUserId") as [t|]; simpl in Hd; [|done].
      injection Hd as <- _. done.
Qed.

Lemma only_own_entry_changes_witness :
  let s := mkServer {[ "a" := JStr "Ann" ]} {[ "a"; "b" ]} in
  ∃ s' out, step s (FromSocket "b" (userJoined (JStr "Bob"))) = Some (s', out) ∧
    (∀ c, c ≠ "b" →
          connectedUsers s' !! c = connectedUsers s !! c ∧
          (c ∈ sockets s' ↔ c ∈ sockets s)) ∧
    (changes_membership (FromSocket "b" (userJoined (JStr "Bob"))) = false →
     connectedUsers s' = connectedUsers s).
Proof.
  intros s. eexists _, _. split; [reflexivity|].
  eapply (only_own_entry_changes s _ (FromSocket "b" (userJoined (JStr "Bob")))).
  reflexivity.
Defined.

(** X3: a whole visit leaves no trace.  From any reachable state, a
    client that connects under a free id, joins and disconnects brings the
    server back to exactly the state it had before: no orphan entry stays
    in the registry. *)
Theorem visit_round_trip (tr : list input) (s : server) (c : socket_id) (u : jsval) :
  run initial tr = Some s →
  c ∉ sockets s →
  run initial (tr ++ [Connect c; FromSocket c (userJoined u); FromSocket c disconnect])
  = Some s.
Proof.
  intros Hrun Hfree.
  assert (Habsent : connectedUsers s !! c = None).
  { apply eq_None_not_Some. intros Hsome.
    by apply (registry_inv_run _ _ Hrun) in Hsome as [_ ?]. }
  assert (H1 : step s (Connect c) = Some (open_socket c s, [])).
  { unfold step, enabled. by rewrite bool_decide_eq_true_2. }
  pose proof (run_step _ _ _ _ _ Hrun H1) as Hrun1.
  assert (H2 : step (open_socket c s) (FromSocket c (userJoined u))
               = Some (on_userJoined c u (open_socket c s))).
  { rewrite step_enabled; [done | set_solver]. }
  pose proof (run_step _ _ _ _ _ Hrun1 H2) as Hrun2.
  assert (H3 : step (on_userJoined c u (open_socket c s)).1 (FromSocket c disconnect)
               = Some (on_disconnect c (close_socket c (on_userJoined c u (open_socket c s)).1))).
  { rewrite step_enabled; [done | set_solver]. }
  pose proof (run_step _ _ _ _ _ Hrun2 H3) as Hrun3.
  rewrite <- !app_assoc in Hrun3. simpl in Hrun3. rewrite Hrun3.
  f_equal. destruct s as [m X]. simpl in *. f_equal.
  - rewrite delete_insert_eq. by apply delete_id.
  - set_solver.
Qed.

Lemma visit_round_trip_witness :
  let tr := [Connect "a"; FromSocket "a" (userJoined (JStr "Ann"))] in
  ∃ s, run initial tr = Some s ∧
    run initial (tr ++ [Connect "b"; FromSocket "b" (userJoined JNull);
                        FromSocket "b" disconnect]) = Some s.
Proof.
  intros tr. eexists. split; [reflexivity|].
  apply (visit_round_trip tr _ "b" JNull).
  - reflexivity.
  - vm_compute. congruence.
Defined.

(** X4: in every reachable state, the [onlineUsers] broadcast that
    follows a join or a disconnect carries a count that is at most the
    number of clients that receive it, and one client receives it per
    open connection. *)
Theorem onlineUsers_count_at_most_recipients (tr : list input) (s s' : server)
    (i : input) (out : list emission) :
  run initial tr = Some s →
  changes_membership i = true →
  step s i = Some (s', out) →
  length out = size (sockets s') ∧
  ∀ e, e ∈ out →
    em_event e = "onlineUsers" ∧
    ∃ n : nat, em_data e = JNum (Z.of_nat n) ∧ (n ≤ length out)%nat.
Proof.
  intros Hrun Hi Hstep.
  pose proof (registry_inv_size _ _ (registry_inv_run _ _ (run_step _ _ _ _ _ Hrun Hstep)))
    as Hsize.
  destruct i as [id|id ev]; [done|].
  apply step_FromSocket in Hstep as (_ & Hd).
  destruct ev as [u| |d|d]; try done; simpl in Hd;
    injection Hd as <- <-; unfold io_emit; rewrite length_fmap; simpl in *;
    (split; [done|]); intros e He;
    apply elem_of_packets in He as (_ & -> & ->);
    (split; [done|]); eexists; (split; [reflexivity|]); exact Hsize.
Qed.

Lemma onlineUsers_count_at_most_recipients_witness :
  let tr := [Connect "a"; Connect "b"; FromSocket "a" (userJoined (JStr "Ann"))] in
  ∃ s s' out, run initial tr = Some s ∧
    step s (FromSocket "a" disconnect) = Some (s', out) ∧
    length out = size (sockets s') ∧
    ∀ e, e ∈ out →
      em_event e = "onlineUsers" ∧
      ∃ n : nat, em_data e = JNum (Z.of_nat n) ∧ (n ≤ length out)%nat.
Proof.
  intros tr. eexists _, _, _. split; [reflexivity|]. split; [reflexivity|].
  eapply (onlineUsers_count_at_most_recipients tr _ _ (FromSocket "a" disconnect));
    reflexivity.
Defined.

(** X5: once every connection has closed, the registry is empty, and
    GET /api/users/online answers a count of 0. *)
Theorem nobody_online_when_all_closed (tr : list input) (s : server) :
  run initial tr = Some s →
  sockets s = ∅ →
  connectedUsers s = ∅ ∧
  body (get_users_online s).2 = JObj [("count", JNum 0)].
Proof.
  intros Hrun Hclosed.
  assert (Hempty : connectedUsers s = ∅).
  { apply map_size_empty_iff.
    pose proof (registry_inv_size _ _ (registry_inv_run _ _ Hrun)) as Hsize.
    rewrite Hclosed, size_empty in Hsize. lia. }
  split; [done|]. simpl. by rewrite Hempty, map_size_empty.
Qed.

Lemma nobody_online_when_all_closed_witness :
  let tr := [Connect "a"; FromSocket "a" (userJoined (JStr "Ann")); Connect "b";
             FromSocket "a" disconnect; FromSocket "b" disconnect] in
  ∃ s, run initial tr = Some s ∧
    connectedUsers s = ∅ ∧
    body (get_users_online s).2 = JObj [("count", JNum 0)].
Proof.
  intros tr. eexists. split; [reflexivity|].
  apply (nobody_online_when_all_closed tr); reflexivity.
Defined.

(** X6: the [battleInvite] listener throws exactly when the payload is
    [null] or [undefined]; a payload that has no [targetUserId] (or holds
    [null] there) is accepted and reaches nobody. *)
Theorem battleInvite_bad_payload (s : server) (A : socket_id) (data : jsval) :
  (on_battleInvite A data s = None ↔ data = JNull ∨ data = JUndefined) ∧
  (get_prop data "targetUserId" = Some JUndefined ∨
   get_prop data "targetUserId" = Some JNull →
   on_battleInvite A data s = Some (s, [])).
Proof.
  split.
  - unfold on_battleInvite. destruct data; simpl; naive_solver.
  - unfold on_battleInvite. intros [-> | ->]; simpl;
      unfold socket_to_emit; simpl;
      replace (∅ ∖ {[A]}) with (∅ : gset string) by set_solver;
      by rewrite elements_empty.
Qed.

(** X7: POST /api/progress answers 500 exactly when the request body is
    [null] or [undefined] (the destructuring throws and the [catch] block
    answers); every other body is answered with 200 or 400; the server
    state is the same afterwards in all cases. *)
Theorem post_progress_status (s : server) (req_body : jsval) :
  (post_progress s req_body).1 = s ∧
  (status (post_progress s req_body).2 = 500%Z
     ↔ req_body = JNull ∨ req_body = JUndefined) ∧
  ((post_progress s req_body).2 =
     res_status_json 500 (JObj [("error", JStr "Failed to save progress")]) ∨
   (post_progress s req_body).2 = progress_saved ∨
   status (post_progress s req_body).2 = 400%Z).
Proof.
  unfold post_progress.
  destruct req_body; simpl;
    repeat match goal with |- context [if ?b then _ else _] => destruct b end;
    simpl; repeat split; try naive_solver.
Qed.

(** ** GET /api/health *)

(** X8: the two memory figures of GET /api/health are the byte counts
    rounded to the nearest mebibyte (each is within half a mebibyte of the
    true figure, a tie going up), and rounding keeps their order: when the
    heap in use is at most the heap allocated, so are the figures. *)
Theorem health_memory_rounded (p : process_info) (s : server) :
  ∃ used total : Z,
    get_prop (body (get_health p s).2) "memory"
    = Some (JObj [("used", JNum used); ("total", JNum total)]) ∧
    (heapUsed p - 524288 < used * 1048576 ≤ heapUsed p + 524288)%Z ∧
    (heapTotal p - 524288 < total * 1048576 ≤ heapTotal p + 524288)%Z ∧
    (heapUsed p ≤ heapTotal p → used ≤ total)%Z.
Proof.
  exists (to_MB (heapUsed p)), (to_MB (heapTotal p)).
  split; [reflexivity|]. unfold to_MB.
  pose proof (Z.div_mod (heapUsed p + 524288) 1048576 ltac:(lia)) as Hu.
  pose proof (Z.mod_pos_bound (heapUsed p + 524288) 1048576 ltac:(lia)) as Hu'.
  pose proof (Z.div_mod (heapTotal p + 524288) 1048576 ltac:(lia)) as Ht.
  pose proof (Z.mod_pos_bound (heapTotal p + 524288) 1048576 ltac:(lia)) as Ht'.
  repeat split; lia.
Qed.

(** X9: GET /api/health and GET /api/users/online report the same number
    of connected users, neither changes the server state, and in every
    reachable state that number is at most the number of open
    connections. *)
Theorem health_count_agrees (p : process_info) (tr : list input) (s : server) :
  run initial tr = Some s →
  (get_health p s).1 = s ∧
  ∃ n : nat,
    get_prop (body (get_health p s).2) "connectedUsers" = Some (JNum (Z.of_nat n)) ∧
    get_prop (body (get_users_online s).2) "count" = Some (JNum (Z.of_nat n)) ∧
    (n ≤ size (sockets s))%nat.
Proof.
  intros Hrun. split; [done|]. exists (size (connectedUsers s)).
  split; [reflexivity|]. split; [reflexivity|].
  exact (registry_inv_size _ _ (registry_inv_run _ _ Hrun)).
Qed.

Lemma health_count_agrees_witness :
  let p := mkProcess 12 30000000 50000000 ∅ "2024-01-01T00:00:00.000Z" in
  let tr := [Connect "a"; Connect "b"; FromSocket "a" (userJoined (JStr "Ann"))] in
  ∃ s, run initial tr = Some s ∧
    (get_health p s).1 = s ∧
    ∃ n : nat,
      get_prop (body (get_health p s).2) "connectedUsers" = Some (JNum (Z.of_nat n)) ∧
      get_prop (body (get_users_online s).2) "count" = Some (JNum (Z.of_nat n)) ∧
      (n ≤ size (sockets s))%nat.
Proof.
  intros p tr. eexists. split; [reflexivity|].
  apply (health_count_agrees p tr). reflexivity.
Defined.

(** X10: GET /api/health tells of each AI key only whether it is set to a
    non-empty value.  Two environments that agree on that for the three
    keys give the very same answer: no key value, and no other variable,
    shows in it. *)
Theorem health_hides_keys (p : process_info) (env' : gmap string string) (s : server) :
  let p' := mkProcess (uptime_seconds p) (heapUsed p) (heapTotal p) env' (now_iso p) in
  (∀ k, k ∈ ["OPENAI_API_KEY"; "CLAUDE_API_KEY"; "GEMINI_API_KEY"] →
        env_flag p k = env_flag p' k) →
  get_health p s = get_health p' s.
Proof.
  intros p' Hflags. unfold get_health.
  rewrite (Hflags "OPENAI_API_KEY"), (Hflags "CLAUDE_API_KEY"),
    (Hflags "GEMINI_API_KEY") by set_solver.
  done.
Qed.

Lemma health_hides_keys_witness :
  let p := mkProcess 12 30000000 50000000
             {[ "OPENAI_API_KEY" := "sk-one"; "PORT" := "3000" ]}
             "2024-01-01T00:00:00.000Z" in
  let env' : gmap string string := {[ "OPENAI_API_KEY" := "sk-two" ]} in
  get_health p initial
  = get_health (mkProcess (uptime_seconds p) (heapUsed p) (heapTotal p) env' (now_iso p))
      initial.
Proof.
  intros p env'. apply (health_hides_keys p env' initial).
  intros k Hk. repeat (apply elem_of_cons in Hk as [-> | Hk]; [reflexivity|]).
  by apply elem_of_nil in Hk.
Defined.

(** ** The secrets loader *)

Section Secrets.
Variable trim : string → string.
Implicit Types (secrets acc res : gmap string jsval) (key k : string)
  (keys : list string) (injected penv : jsval) (r : realm).

Lemma usable_injected_truthy injected k v :
  usable_injected trim injected k = Some v → truthy v = true.
Proof.
  unfold usable_injected. destruct (prop_of injected k); try done.
  destruct (truthy (JStr s) && truthy (JStr (trim s))) eqn:Hb; [|done].
  intros [= <-]. by apply andb_true_iff in Hb as [_ ?].
Qed.

Lemma take_injected_Some injected acc key res :
  take_injected trim injected acc key = Some res →
  trimmable injected key = true ∧
  res = match usable_injected trim injected key with
        | Some v => <[ key := v ]> acc
        | None => acc
        end.
Proof.
  unfold take_injected, trimmable, usable_injected.
  destruct (prop_of injected key) as [| |b|n|v|l|l]; simpl;
    try (by intros [= <-]).
  - destruct b; [done | by intros [= <-]].
  - destruct (n =? 0)%Z; simpl; [by intros [= <-] | done].
  - destruct (negb (String.eqb v "") && negb (String.eqb (trim v) ""));
      by intros [= <-].
Qed.

Lemma take_injected_None injected acc key :
  take_injected trim injected acc key = None ↔ trimmable injected key = false.
Proof.
  unfold take_injected, trimmable.
  destruct (prop_of injected key) as [| |b|n|v|l|l]; simpl; try done.
  - by destruct b.
  - by destruct (n =? 0)%Z.
  - by destruct (negb (String.eqb v "") && negb (String.eqb (trim v) "")).
Qed.

(** The first loop ends normally exactly when every value can be
    handled. *)
Lemma for_keys_injected_is_Some injected keys acc :
  is_Some (for_keys (take_injected trim injected) keys acc)
  ↔ forallb (trimmable injected) keys = true.
Proof.
  revert acc. induction keys as [|key keys IH]; intros acc; simpl.
  - split; [done | by eexists].
  - destruct (take_injected trim injected acc key) as [acc'|] eqn:Htake; simpl.
    + apply take_injected_Some in Htake as [-> _]. simpl. apply IH.
    + apply take_injected_None in Htake as ->. simpl. split; [by intros [??] | done].
Qed.

(** What the first loop has collected when it ends. *)
Lemma for_keys_injected_lookup injected keys acc res k :
  for_keys (take_injected trim injected) keys acc = Some res →
  res !! k = if decide (k ∈ keys)
             then match usable_injected trim injected k with
                  | Some v => Some v
                  | None => acc !! k
                  end
             else acc !! k.
Proof.
  revert acc. induction keys as [|key keys IH]; intros acc; simpl.
  - intros [= <-]. done.
  - destruct (take_injected trim injected acc key) as [acc'|] eqn:Htake; simpl; [|done].
    intros Hrest. rewrite (IH _ Hrest).
    apply take_injected_Some in Htake as [_ ->].
    destruct (decide (k = key)) as [->|Hne].
    + rewrite (decide_True (P := key ∈ key :: keys)) by set_solver.
      destruct (usable_injected trim injected key) as [v|].
      * case_decide; [done | by rewrite lookup_insert_eq].
      * by case_decide.
    + assert (Hacc : (match usable_injected trim injected key with
                      | Some v => <[ key := v ]> acc
                      | None => acc
                      end) !! k = acc !! k).
      { destruct (usable_injected trim injected key); [|done].
        by rewrite lookup_insert_ne. }
      rewrite Hacc.
      destruct (decide (k ∈ keys)).
      * by rewrite (decide_True (P := k ∈ key :: keys)) by set_solver.
      * by rewrite (decide_False (P := k ∈ key :: keys)) by set_solver.
Qed.

(** What the second loop adds. *)
Lemma fold_take_env_lookup penv keys acc k :
  fold_left (take_env penv) keys acc !! k
  = if decide (k ∈ keys)
    then if truthy (default JUndefined (acc !! k)) then acc !! k
         else if truthy (prop_of penv k) then Some (prop_of penv k)
         else acc !! k
    else acc !! k.
Proof.
  revert acc. induction keys as [|key keys IH]; intros acc; simpl; [done|].
  rewrite IH.
  destruct (decide (k = key)) as [->|Hne].
  - rewrite (decide_True (P := key ∈ key :: keys)) by set_solver.
    unfold take_env.
    destruct (truthy (default JUndefined (acc !! key))) eqn:Hacc; simpl.
    + rewrite Hacc. by case_decide.
    + destruct (truthy (prop_of penv key)) eqn:Henv; simpl.
      * rewrite lookup_insert_eq. simpl. by repeat case_match.
      * rewrite Hacc. by repeat case_match.
  - assert (Hacc : take_env penv acc key !! k = acc !! k).
    { unfold take_env.
      destruct (negb (truthy (default JUndefined (acc !! key)))
                && truthy (prop_of penv key)); [|done].
      by rewrite lookup_insert_ne. }
    rewrite Hacc.
    destruct (decide (k ∈ keys)).
    + by rewrite (decide_True (P := k ∈ key :: keys)) by set_solver.
    + by rewrite (decide_False (P := k ∈ key :: keys)) by set_solver.
Qed.

Lemma from_injected_is_Some r :
  is_Some (from_injected trim r) ↔ loads_cleanly r = true.
Proof.
  unfold from_injected, loads_cleanly.
  destruct (the_window r) as [w|]; [|split; [done | by eexists]].
  destruct (truthy (INJECTED_SECRETS w)); [|split; [done | by eexists]].
  apply for_keys_injected_is_Some.
Qed.

Lemma from_injected_lookup r injected_secrets k :
  from_injected trim r = Some injected_secrets →
  injected_secrets !! k = if decide (k ∈ secretKeys) then injected_value trim r k else None.
Proof.
  unfold from_injected, injected_value.
  destruct (the_window r) as [w|]; [|intros [= <-]; rewrite lookup_empty; by case_decide].
  destruct (truthy (INJECTED_SECRETS w));
    [|intros [= <-]; rewrite lookup_empty; by case_decide].
  intros Hloop. rewrite (for_keys_injected_lookup _ _ _ _ k Hloop), lookup_empty.
  case_decide; [|done]. by destruct (usable_injected trim (INJECTED_SECRETS w) k).
Qed.

Lemma injected_value_truthy r k v :
  injected_value trim r k = Some v → truthy v = true.
Proof.
  unfold injected_value. destruct (the_window r) as [w|]; [|done].
  destruct (truthy (INJECTED_SECRETS w)); [|done].
  apply usable_injected_truthy.
Qed.

Lemma env_value_truthy r k v : env_value r k = Some v → truthy v = true.
Proof.
  unfold env_value. destruct (process_env r) as [penv|]; [|done].
  destruct (truthy penv && truthy (prop_of penv k)) eqn:Hb; [|done].
  intros [= <-]. by apply andb_true_iff in Hb as [_ ?].
Qed.

(** The secrets a clean load returns: for each of the four keys the
    injected value if there is a usable one, else the one of
    [process.env]; nothing under any other key. *)
Lemma loadSecrets_lookup r k :
  loads_cleanly r = true →
  (loadSecrets trim r).1 !! k
  = if decide (k ∈ secretKeys)
    then match injected_value trim r k with
         | Some v => Some v
         | None => env_value r k
         end
    else None.
Proof.
  intros Hok. apply from_injected_is_Some in Hok as [inj Hinj].
  unfold loadSecrets. rewrite Hinj. cbn [fst].
  pose proof (from_injected_lookup r inj k Hinj) as Hk.
  unfold from_env, env_value.
  destruct (process_env r) as [penv|].
  - destruct (truthy penv); cbn [andb].
    + rewrite fold_take_env_lookup, Hk.
      case_decide; [|done].
      destruct (injected_value trim r k) as [v|] eqn:Hv; cbn [default from_option id].
      * by rewrite (injected_value_truthy _ _ _ Hv).
      * by destruct (truthy (prop_of penv k)).
    + rewrite Hk. case_decide; [|done]. by destruct (injected_value trim r k).
  - rewrite Hk. case_decide; [|done]. by destruct (injected_value trim r k).
Qed.

Lemma loadSecrets_throws r :
  loads_cleanly r = false → loadSecrets trim r = (∅, r).
Proof.
  intros Hbad. unfold loadSecrets.
  destruct (from_injected trim r) as [inj|] eqn:Hinj; [|done].
  assert (loads_cleanly r = true) by (apply from_injected_is_Some; by eexists).
  congruence.
Qed.
End Secrets.

Lemma assoc_NoDup (l : list (string * jsval)) (k : string) :
  NoDup l.*1 → ∀ v, assoc k l = Some v ↔ (k, v) ∈ l.
Proof.
  induction l as [|[k' v'] l IH]; simpl.
  - intros _ v. split; [done | by intros ?%elem_of_nil].
  - intros [Hk' Hl]%NoDup_cons v. specialize (IH Hl). rewrite elem_of_cons.
    assert (Hkey : ∀ w, (k', w) ∈ l → False).
    { intros w Hin. apply Hk', list_elem_of_fmap. by exists (k', w). }
    destruct (assoc k l) as [w|].
    + pose proof (proj1 (IH w) eq_refl) as Hw. split.
      * intros [= ->]. by right.
      * intros [[= -> ->] | Hin]; [by destruct (Hkey w)|].
        by apply IH in Hin.
    + destruct (String.eqb k k') eqn:Heq.
      * apply String.eqb_eq in Heq as ->. split.
        -- intros [= ->]. by left.
        -- intros [[= ->] | Hin]; [done | by destruct (Hkey v)].
      * apply String.eqb_neq in Heq. split; [done|].
        intros [[= -> ->] | Hin]; [done|]. by apply IH in Hin.
Qed.

Lemma prop_of_map_to_list (m : gmap string jsval) (k : string) :
  prop_of (JObj (map_to_list m)) k = default JUndefined (m !! k).
Proof.
  unfold prop_of. simpl. f_equal. apply option_eq. intros v.
  rewrite assoc_NoDup by apply NoDup_fst_map_to_list.
  apply elem_of_map_to_list.
Qed.

Lemma truthy_JStr (x : string) : truthy (JStr x) = true ↔ x ≠ "".
Proof.
  simpl. rewrite negb_true_iff. split.
  - intros Hne ->. by rewrite String.eqb_refl in Hne.
  - intros Hne. by apply String.eqb_neq.
Qed.

Lemma prop_of_JStr_truthy (o : jsval) (k x : string) :
  prop_of o k = JStr x → truthy o = true.
Proof. by destruct o. Qed.

Lemma loadSecrets_value_truthy (trim : string → string) (r : realm) (k : string) (v : jsval) :
  (loadSecrets trim r).1 !! k = Some v → truthy v = true.
Proof.
  destruct (loads_cleanly r) eqn:Hok.
  - rewrite loadSecrets_lookup by done. case_decide; [|done].
    destruct (injected_value trim r k) as [v'|] eqn:Hinj.
    + intros [= <-]. by eapply injected_value_truthy.
    + apply env_value_truthy.
  - rewrite loadSecrets_throws by done. simpl. by rewrite lookup_empty.
Qed.

Lemma prop_of_published (secrets : gmap string jsval) (k : string) :
  (∀ v, secrets !! "OPENAI_MODEL" = Some v → truthy v = true) →
  prop_of (published secrets) k
  = if decide (k = "OPENAI_MODEL")
    then default (JStr "gpt-3.5-turbo") (secrets !! k)
    else default JUndefined (secrets !! k).
Proof.
  intros Htruthy. unfold published. rewrite prop_of_map_to_list.
  case_decide as Hk.
  - subst k. rewrite lookup_insert_eq. simpl. unfold js_or.
    destruct (secrets !! "OPENAI_MODEL") as [v|] eqn:Hv; simpl; [|done].
    by rewrite (Htruthy v).
  - by rewrite lookup_insert_ne.
Qed.

Lemma loadSecrets_clean (trim : string → string) (r : realm) (w : window) :
  the_window r = Some w → loads_cleanly r = true →
  (loadSecrets trim r).2
  = mkRealm (Some (publish (loadSecrets trim r).1 w)) (process_env r).
Proof.
  intros Hw Hok. apply (from_injected_is_Some trim) in Hok as [inj Hinj].
  unfold loadSecrets. rewrite Hinj, Hw. done.
Qed.

(** X11: an injected secret wins.  In a browser whose injected values can
    all be handled, a key of the list whose injected value is a string
    that is not blank is returned trimmed, whatever [process.env] holds
    for it. *)
Theorem injected_secret_wins (trim : string → string) (r : realm) (w : window)
    (k x : string) :
  the_window r = Some w →
  loads_cleanly r = true →
  k ∈ secretKeys →
  prop_of (INJECTED_SECRETS w) k = JStr x →
  x ≠ "" →
  trim x ≠ "" →
  (loadSecrets trim r).1 !! k = Some (JStr (trim x)).
Proof.
  intros Hw Hok Hk Hx Hne Hblank.
  rewrite loadSecrets_lookup by done. rewrite decide_True by done.
  unfold injected_value. rewrite Hw, (prop_of_JStr_truthy _ _ _ Hx).
  unfold usable_injected. rewrite Hx.
  by rewrite (proj2 (truthy_JStr x) Hne), (proj2 (truthy_JStr (trim x)) Hblank).
Qed.

Lemma injected_secret_wins_witness :
  let w := mkWindow (JObj [("OPENAI_API_KEY", JStr "  sk-abc "); ("OPENAI_MODEL", JStr "")])
             JUndefined JUndefined JUndefined JUndefined in
  let r := mkRealm (Some w) (Some (JObj [("OPENAI_API_KEY", JStr "sk-env")])) in
  (loadSecrets trim_ascii r).1 !! "OPENAI_API_KEY" = Some (JStr (trim_ascii "  sk-abc ")).
Proof.
  intros w r.
  apply (injected_secret_wins trim_ascii r w "OPENAI_API_KEY" "  sk-abc ").
  - reflexivity.
  - reflexivity.
  - vm_compute. repeat constructor.
  - reflexivity.
  - discriminate.
  - vm_compute. discriminate.
Defined.



(** X13: whatever the realm, the object [loadSecrets] resolves to has
    entries only under the four keys of the list, and none of its values
    is falsy: no empty string, no [null], no [undefined]. *)
Theorem loaded_secrets_are_set (trim : string → string) (r : realm) :
  (∀ k, k ∉ secretKeys → (loadSecrets trim r).1 !! k = None) ∧
  map_Forall (λ _ v, truthy v = true) (loadSecrets trim r).1.
Proof.
  split.
  - intros k Hk. destruct (loads_cleanly r) eqn:Hok.
    + rewrite loadSecrets_lookup by done. by rewrite decide_False.
    + rewrite loadSecrets_throws by done. simpl. by rewrite lookup_empty.
  - intros k v. apply loadSecrets_value_truthy.
Qed.

(** X14: one bad injected value voids the whole load.  If, in a browser,
    the injected object holds under one of the four keys a truthy value
    that is not a string, [trim] is not a function of it: the exception
    is swallowed, the result is the empty object (the secrets of
    [process.env] are lost too) and nothing is written to [window]. *)
Theorem malformed_injection_voids_load (trim : string → string) (r : realm)
    (w : window) (k : string) :
  the_window r = Some w →
  truthy (INJECTED_SECRETS w) = true →
  k ∈ secretKeys →
  truthy (prop_of (INJECTED_SECRETS w) k) = true →
  (∀ x, prop_of (INJECTED_SECRETS w) k ≠ JStr x) →
  loadSecrets trim r = (∅, r).
Proof.
  intros Hw Hinj Hk Htruthy Hnostr. apply loadSecrets_throws.
  unfold loads_cleanly. rewrite Hw, Hinj.
  destruct (forallb (trimmable (INJECTED_SECRETS w)) secretKeys) eqn:Hall; [|done].
  rewrite forallb_forall in Hall.
  specialize (Hall k (proj1 (list_elem_of_In _ _) Hk)).
  unfold trimmable in Hall.
  destruct (prop_of (INJECTED_SECRETS w) k) as [| |b|n|x|l|l] eqn:Hv;
    try (by rewrite Htruthy in Hall).
  by destruct (Hnostr x).
Qed.

Lemma malformed_injection_voids_load_witness :
  let w := mkWindow (JObj [("OPENAI_API_KEY", JStr "sk-abc"); ("GEMINI_API_KEY", JNum 42)])
             JUndefined JUndefined JUndefined JUndefined in
  let r := mkRealm (Some w) (Some (JObj [("CLAUDE_API_KEY", JStr "cl-env")])) in
  loadSecrets trim_ascii r = (∅, r).
Proof.
  intros w r.
  apply (malformed_injection_voids_load trim_ascii r w "GEMINI_API_KEY").
  - reflexivity.
  - reflexivity.
  - vm_compute. repeat constructor.
  - reflexivity.
  - intros x. vm_compute. discriminate.
Defined.

(** X15: what a clean load leaves on [window].  The published
    [INJECTED_SECRETS] holds each secret found, and always a model name:
    the one found, else "gpt-3.5-turbo".  The three key variables hold
    the key found, else the empty string.  [window.env] and
    [process.env] are as before. *)
Theorem window_after_load (trim : string → string) (r : realm) (w : window) :
  the_window r = Some w →
  loads_cleanly r = true →
  ∃ w',
    the_window (loadSecrets trim r).2 = Some w' ∧
    process_env (loadSecrets trim r).2 = process_env r ∧
    win_env w' = win_env w ∧
    (∀ k, k ≠ "OPENAI_MODEL" →
          prop_of (INJECTED_SECRETS w') k
          = default JUndefined ((loadSecrets trim r).1 !! k)) ∧
    prop_of (INJECTED_SECRETS w') "OPENAI_MODEL"
    = default (JStr "gpt-3.5-turbo") ((loadSecrets trim r).1 !! "OPENAI_MODEL") ∧
    truthy (prop_of (INJECTED_SECRETS w') "OPENAI_MODEL") = true ∧
    openaiKey w' = default (JStr "") ((loadSecrets trim r).1 !! "OPENAI_API_KEY") ∧
    claudeKey w' = default (JStr "") ((loadSecrets trim r).1 !! "CLAUDE_API_KEY") ∧
    geminiKey w' = default (JStr "") ((loadSecrets trim r).1 !! "GEMINI_API_KEY").
Proof.
  intros Hw Hok. rewrite (loadSecrets_clean trim r w Hw Hok).
  set (secrets := (loadSecrets trim r).1).
  assert (Htruthy : ∀ k v, secrets !! k = Some v → truthy v = true)
    by apply loadSecrets_value_truthy.
  assert (Hor : ∀ k d, js_or (default JUndefined (secrets !! k)) d
                       = default d (secrets !! k)).
  { intros k d. unfold js_or. destruct (secrets !! k) as [v|] eqn:Hv; simpl; [|done].
    by rewrite (Htruthy k v). }
  eexists. split; [reflexivity|]. simpl.
  split; [done|]. split; [done|].
  split; [|split; [|split]].
  - intros k Hk. rewrite prop_of_published by apply Htruthy. by rewrite decide_False.
  - rewrite prop_of_published by apply Htruthy. by rewrite decide_True.
  - rewrite prop_of_published by apply Htruthy. rewrite decide_True by done.
    destruct (secrets !! "OPENAI_MODEL") as [v|] eqn:Hv; simpl; [|done].
    by apply (Htruthy "OPENAI_MODEL").
  - by rewrite !Hor.
Qed.

Lemma window_after_load_witness :
  let w := mkWindow (JObj [("OPENAI_API_KEY", JStr " sk-abc ")])
             (JObj [("OPENAI_MODEL", JStr "gpt-4")]) JUndefined JUndefined JUndefined in
  let r := mkRealm (Some w) None in
  ∃ w',
    the_window (loadSecrets trim_ascii r).2 = Some w' ∧
    process_env (loadSecrets trim_ascii r).2 = process_env r ∧
    win_env w' = win_env w ∧
    (∀ k, k ≠ "OPENAI_MODEL" →
          prop_of (INJECTED_SECRETS w') k
          = default JUndefined ((loadSecrets trim_ascii r).1 !! k)) ∧
    prop_of (INJECTED_SECRETS w') "OPENAI_MODEL"
    = default (JStr "gpt-3.5-turbo") ((loadSecrets trim_ascii r).1 !! "OPENAI_MODEL") ∧
    truthy (prop_of (INJECTED_SECRETS w') "OPENAI_MODEL") = true ∧
    openaiKey w' = default (JStr "") ((loadSecrets trim_ascii r).1 !! "OPENAI_API_KEY") ∧
    claudeKey w' = default (JStr "") ((loadSecrets trim_ascii r).1 !! "CLAUDE_API_KEY") ∧
    geminiKey w' = default (JStr "") ((loadSecrets trim_ascii r).1 !! "GEMINI_API_KEY").
Proof.
  intros w r. apply (window_after_load trim_ascii r w); reflexivity.
Defined.

(** X16: the configuration script reads back what the loader wrote.
    After a clean load in a browser, [getEnvVar] returns every secret
    that was found, and for the model name it never returns the caller's
    fallback: it returns the model found, else "gpt-3.5-turbo". *)
Theorem getEnvVar_after_load (trim : string → string) (r : realm) (w : window) :
  the_window r = Some w →
  loads_cleanly r = true →
  (∀ k v fallback,
     (loadSecrets trim r).1 !! k = Some v →
     getEnvVar (loadSecrets trim r).2 k fallback = v) ∧
  (∀ fallback,
     getEnvVar (loadSecrets trim r).2 "OPENAI_MODEL" fallback
     = default (JStr "gpt-3.5-turbo") ((loadSecrets trim r).1 !! "OPENAI_MODEL")).
Proof.
  intros Hw Hok. rewrite (loadSecrets_clean trim r w Hw Hok).
  set (secrets := (loadSecrets trim r).1).
  assert (Htruthy : ∀ k v, secrets !! k = Some v → truthy v = true)
    by apply loadSecrets_value_truthy.
  assert (Hmodel : truthy (default (JStr "gpt-3.5-turbo") (secrets !! "OPENAI_MODEL")) = true).
  { destruct (secrets !! "OPENAI_MODEL") as [v|] eqn:Hv; simpl; [|done].
    by apply (Htruthy "OPENAI_MODEL"). }
  unfold getEnvVar. cbn [the_window publish INJECTED_SECRETS].
  split.
  - intros k v fallback Hk.
    rewrite prop_of_published by apply Htruthy.
    case_decide as Hkey.
    + subst k. rewrite Hk. simpl. by rewrite (Htruthy _ _ Hk).
    + rewrite Hk. simpl. by rewrite (Htruthy _ _ Hk).
  - intros fallback. rewrite prop_of_published by apply Htruthy.
    rewrite decide_True by done. by rewrite Hmodel.
Qed.

Lemma getEnvVar_after_load_witness :
  let w := mkWindow (JObj [("OPENAI_API_KEY", JStr " sk-abc ")])
             JUndefined JUndefined JUndefined JUndefined in
  let r := mkRealm (Some w) None in
  (∀ k v fallback,
     (loadSecrets trim_ascii r).1 !! k = Some v →
     getEnvVar (loadSecrets trim_ascii r).2 k fallback = v) ∧
  (∀ fallback,
     getEnvVar (loadSecrets trim_ascii r).2 "OPENAI_MODEL" fallback
     = default (JStr "gpt-3.5-turbo") ((loadSecrets trim_ascii r).1 !! "OPENAI_MODEL")).
Proof.
  intros w r. apply (getEnvVar_after_load trim_ascii r w); reflexivity.
Defined.

(** X17: the build and the loader fit together.  Loading, in a browser,
    the object the build script injects never throws; it finds an API key
    exactly when the build environment held a value for it that is not
    blank, and returns it trimmed; and it finds the model name of the
    build environment, "gpt-3.5-turbo" when there was none, trimmed as
    well. *)
Theorem build_then_load (trim : string → string) (benv : gmap string string)
    (w : window) :
  let r := mkRealm (Some (mkWindow (build_secrets benv) (win_env w)
                            (openaiKey w) (claudeKey w) (geminiKey w))) None in
  loads_cleanly r = true ∧
  (∀ k, k ∈ ["OPENAI_API_KEY"; "CLAUDE_API_KEY"; "GEMINI_API_KEY"] →
        (loadSecrets trim r).1 !! k
        = match benv !! k with
          | Some v => if truthy (JStr v) && truthy (JStr (trim v))
                      then Some (JStr (trim v)) else None
          | None => None
          end) ∧
  (loadSecrets trim r).1 !! "OPENAI_MODEL"
  = (let m := env_or benv "OPENAI_MODEL" "gpt-3.5-turbo" in
     if truthy (JStr (trim m)) then Some (JStr (trim m)) else None).
Proof.
  intros r.
  assert (Hok : loads_cleanly r = true) by reflexivity.
  split; [done|]. split.
  - intros k Hk. rewrite loadSecrets_lookup by done.
    assert (Hcases : k = "OPENAI_API_KEY" ∨ k = "CLAUDE_API_KEY" ∨ k = "GEMINI_API_KEY")
      by set_solver.
    rewrite decide_True by (unfold secretKeys; set_solver).
    unfold env_value, injected_value, usable_injected. cbn [r the_window process_env].
    destruct Hcases as [-> | [-> | ->]]; simpl; unfold env_or.
    + destruct (benv !! "OPENAI_API_KEY") as [v|]; simpl; [|done].
      destruct (String.eqb v "") eqn:Hv; simpl; rewrite ?Hv; simpl; [done|].
      by destruct (negb (String.eqb (trim v) "")).
    + destruct (benv !! "CLAUDE_API_KEY") as [v|]; simpl; [|done].
      destruct (String.eqb v "") eqn:Hv; simpl; rewrite ?Hv; simpl; [done|].
      by destruct (negb (String.eqb (trim v) "")).
    + destruct (benv !! "GEMINI_API_KEY") as [v|]; simpl; [|done].
      destruct (String.eqb v "") eqn:Hv; simpl; rewrite ?Hv; simpl; [done|].
      by destruct (negb (String.eqb (trim v) "")).
  - rewrite loadSecrets_lookup by done.
    rewrite decide_True by (unfold secretKeys; set_solver).
    unfold env_value, injected_value, usable_injected. cbn [r the_window process_env].
    simpl. unfold env_or.
    destruct (benv !! "OPENAI_MODEL") as [v|]; simpl.
    + destruct (String.eqb v "") eqn:Hv; simpl.
      * by destruct (negb (String.eqb (trim "gpt-3.5-turbo") "")).
      * rewrite Hv. simpl. by destruct (negb (String.eqb (trim v) "")).
    + by destruct (negb (String.eqb (trim "gpt-3.5-turbo") "")).
Qed.

(** Client a names two targets in a list: both receive the invite. *)
Example invite_with_list_reaches_each :
  let s := mkServer ∅ {[ "a"; "b"; "c"; "d" ]} in
  let data := JObj [("targetUserId", JArr [JStr "b"; JStr "c"])] in
  ∃ out,
    step s (FromSocket "a" (battleInvite data)) = Some (s, out) ∧
    ∀ e, e ∈ out ↔ e = mkEmission "b" "battleInvite" data
                   ∨ e = mkEmission "c" "battleInvite" data.
Proof.
  eexists. split; [by vm_compute|].
  intros e. rewrite list_elem_of_In. simpl. naive_solver.
Qed.
